(** * AccessiChef: the measurement converter and the recipe timer

    A shallow embedding of [MeasurementConverter] (js/accessibility.js) and of
    [RecipeTimer] (js/utils/timer.js), with the properties their
    specification states about them.

    Conventions of the embedding.
    - A JavaScript number is a rational ([Q]) or [NaN]: finite doubles are
      idealised as exact rationals, so that [*], [/], [>=] and [Math.round]
      are the mathematical operations.  Equality of amounts is [Qeq].
    - An object literal used as a lookup table is a [gmap] of its own
      properties together with the members it inherits from
      [Object.prototype]; [obj[key]] consults both, as the language does.
    - The browser (interval and timeout handles, the DOM element written to,
      the sound, the completion callback) is part of the [world] record next
      to the fields of the timer object; every observable effect is appended
      to its [trace]. *)

From Stdlib Require Import ZArith QArith Qround Qabs String Ascii List Lia Lqa.
From Stdlib Require Import DecimalString.
From stdpp Require Import base gmap strings.

Local Open Scope Z_scope.
Local Open Scope string_scope.

(* ================================================================== *)
(** ** JavaScript values that the two modules handle                    *)
(* ================================================================== *)

Module Js.

(** A number: a finite value or NaN. *)
Inductive number : Type :=
| Num (q : Q)
| NaN.

(** The outcome of reading a property that is expected to hold an [A]:
    a value of that shape, a built-in member of [Object.prototype]
    (named by its property name), or [undefined]. *)
Inductive value (A : Type) : Type :=
| Val (a : A)
| Builtin (name : string)
| Undefined.
Arguments Val {A} a.
Arguments Builtin {A} name.
Arguments Undefined {A}.

(** A call either returns or throws a [TypeError]. *)
Inductive outcome (A : Type) : Type :=
| Return (a : A)
| TypeError.
Arguments Return {A} a.
Arguments TypeError {A}.

#[global] Instance outcome_bind : MBind outcome := fun A B k m =>
  match m with
  | Return a => k a
  | TypeError => TypeError
  end.

(** Property names every object literal inherits from [Object.prototype]. *)
Definition objectPrototype : list string :=
  [ "constructor"; "__defineGetter__"; "__defineSetter__"; "hasOwnProperty";
    "__lookupGetter__"; "__lookupSetter__"; "isPrototypeOf";
    "propertyIsEnumerable"; "toString"; "valueOf"; "__proto__";
    "toLocaleString" ].

(** [obj[key]] on an object literal whose own properties are [own]. *)
Definition get {A} (own : gmap string A) (key : string) : value A :=
  match own !! key with
  | Some a => Val a
  | None =>
      if existsb (String.eqb key) objectPrototype then Builtin key
      else Undefined
  end.

(** Truthiness of a table entry.  The entries of both tables are objects or
    non-empty strings, and the built-ins are functions or objects. *)
Definition truthy {A} (v : value A) : bool :=
  match v with
  | Undefined => false
  | _ => true
  end.

(** [String(v)] for a built-in member of [Object.prototype]:
    [__proto__] is [Object.prototype] itself, [constructor] is the function
    [Object], the others are native functions carrying their own name. *)
Definition builtinToString (name : string) : string :=
  if String.eqb name "__proto__" then "[object Object]"
  else if String.eqb name "constructor"
       then "function Object() { [native code] }"
       else "function " ++ name ++ "() { [native code] }".

(** The property key a string-valued read is turned into when it is used
    between brackets. *)
Definition toPropertyKey (v : value string) : string :=
  match v with
  | Val s => s
  | Builtin name => builtinToString name
  | Undefined => "undefined"
  end.

(** [v.field] where [v] is expected to be a record with numeric fields:
    reading from [undefined] throws, a built-in has no such field. *)
Definition field {R} (sel : R -> Q) (v : value R) : outcome (value Q) :=
  match v with
  | Val r => Return (Val (sel r))
  | Builtin _ => Return Undefined
  | Undefined => TypeError
  end.

(** [ToNumber] on what a numeric field read can give. *)
Definition toNumber (v : value Q) : number :=
  match v with
  | Val q => Num q
  | _ => NaN
  end.

Definition mul (a b : number) : number :=
  match a, b with
  | Num x, Num y => Num (x * y)
  | _, _ => NaN
  end.

Definition lower (c : ascii) : ascii :=
  let n := N_of_ascii c in
  if ((65 <=? n)%N && (n <=? 90)%N)%bool then ascii_of_N (n + 32) else c.

(** [String.prototype.toLowerCase], on the ASCII letters. *)
Fixpoint toLowerCase (s : string) : string :=
  match s with
  | EmptyString => EmptyString
  | String c rest => String (lower c) (toLowerCase rest)
  end.

(** [Math.round] on a finite number: the nearest integer, a tie going up. *)
Definition Math_round (x : Q) : Z := Qfloor (x + (1 # 2)).

End Js.

(* ================================================================== *)
(** ** MeasurementConverter (js/accessibility.js)                       *)
(* ================================================================== *)

Module MeasurementConverter.
Import Js.

Record factor : Type := { toMetric : Q; toImperial : Q }.

Record measurement : Type := { amount : number; unit : value string }.

Local Open Scope Q_scope.

Definition conversionFactors : gmap string factor :=
  list_to_map
    [ ("ml",    {| toMetric := 1;       toImperial := 0.033814 |});
      ("l",     {| toMetric := 1000;    toImperial := 33.814 |});
      ("floz",  {| toMetric := 29.5735; toImperial := 1 |});
      ("cup",   {| toMetric := 236.588; toImperial := 8 |});
      ("pint",  {| toMetric := 473.176; toImperial := 16 |});
      ("quart", {| toMetric := 946.353; toImperial := 32 |});
      ("tbsp",  {| toMetric := 14.7868; toImperial := 0.5 |});
      ("tsp",   {| toMetric := 4.92892; toImperial := 0.166667 |});
      ("g",     {| toMetric := 1;       toImperial := 0.035274 |});
      ("kg",    {| toMetric := 1000;    toImperial := 35.274 |});
      ("oz",    {| toMetric := 28.3495; toImperial := 1 |});
      ("lb",    {| toMetric := 453.592; toImperial := 16 |}) ].

Definition unitMappings : gmap string string :=
  list_to_map
    [ ("ml", "floz"); ("l", "quart"); ("g", "oz"); ("kg", "lb");
      ("tbsp", "tbsp"); ("tsp", "tsp");
      ("floz", "ml"); ("cup", "ml"); ("pint", "ml"); ("quart", "l");
      ("oz", "g"); ("lb", "kg") ].

Definition isVolumeUnit (u : string) : bool :=
  existsb (String.eqb (toLowerCase u))
    [ "ml"; "l"; "floz"; "cup"; "pint"; "quart"; "tbsp"; "tsp" ].

(** [roundMeasurement] on a finite value. *)
Definition roundMeasurement (value : Q) : Q :=
  if Qle_bool 10 value then inject_Z (Math_round value)
  else if Qle_bool 1 value then inject_Z (Math_round (value * 4)) / 4
  else inject_Z (Math_round (value * 8)) / 8.

(** [roundMeasurement] on any number: every comparison with NaN is false and
    the last branch gives NaN again. *)
Definition roundNumber (value : number) : number :=
  match value with
  | Num q => Num (roundMeasurement q)
  | NaN => NaN
  end.

Definition isSpecialCase (u : string) : bool :=
  (String.eqb u "pinch" || String.eqb u "dash" || String.eqb u "to taste"
   || String.eqb u "")%bool.

Definition convertToImperial (amount : number) (unit : string)
  : outcome measurement :=
  if isSpecialCase unit then Return {| amount := amount; unit := Val unit |}
  else
    let normalizedUnit := toLowerCase unit in
    if negb (truthy (get conversionFactors normalizedUnit)) then
      Return {| amount := amount; unit := Val unit |}
    else
      let targetUnit := get unitMappings normalizedUnit in
      convertedAmount ←
        (if isVolumeUnit normalizedUnit then
           m ← field toMetric (get conversionFactors normalizedUnit);
           let mlAmount := mul amount (toNumber m) in
           i ← field toImperial
                 (get conversionFactors (toPropertyKey targetUnit));
           Return (mul mlAmount (toNumber i))
         else
           m ← field toMetric (get conversionFactors normalizedUnit);
           let gAmount := mul amount (toNumber m) in
           i ← field toImperial
                 (get conversionFactors (toPropertyKey targetUnit));
           Return (mul gAmount (toNumber i)));
      Return {| amount := roundNumber convertedAmount; unit := targetUnit |}.

Definition convertToMetric (amount : number) (unit : string)
  : outcome measurement :=
  if isSpecialCase unit then Return {| amount := amount; unit := Val unit |}
  else
    let normalizedUnit := toLowerCase unit in
    if negb (truthy (get conversionFactors normalizedUnit)) then
      Return {| amount := amount; unit := Val unit |}
    else
      let targetUnit := get unitMappings normalizedUnit in
      convertedAmount ←
        (if isVolumeUnit normalizedUnit then
           i ← field toImperial (get conversionFactors normalizedUnit);
           let flozAmount := mul amount (toNumber i) in
           m ← field toMetric
                 (get conversionFactors (toPropertyKey targetUnit));
           Return (mul flozAmount (toNumber m))
         else
           i ← field toImperial (get conversionFactors normalizedUnit);
           let ozAmount := mul amount (toNumber i) in
           m ← field toMetric
                 (get conversionFactors (toPropertyKey targetUnit));
           Return (mul ozAmount (toNumber m)));
      Return {| amount := roundNumber convertedAmount; unit := targetUnit |}.

(** Two results agree when they carry the same unit and equal amounts. *)
Definition same_number (a b : number) : Prop :=
  match a, b with
  | Num x, Num y => x == y
  | NaN, NaN => True
  | _, _ => False
  end.

Definition same_measurement (r : outcome measurement) (a : Q) (u : string)
  : Prop :=
  match r with
  | Return m => same_number (amount m) (Num a) /\ unit m = Val u
  | TypeError => False
  end.

(** The unit of a result. *)
Definition unitOf (r : outcome measurement) : option (value string) :=
  match r with
  | Return m => Some (unit m)
  | TypeError => None
  end.

(** Metric to imperial and back: the result of the first conversion is
    handed to the second one as it is; a unit that is no string has no
    [toLowerCase] to call. *)
Definition roundTrip (a : number) (u : string) : outcome measurement :=
  r ← convertToImperial a u;
  match unit r with
  | Val u' => convertToMetric (amount r) u'
  | _ => TypeError
  end.

End MeasurementConverter.

(* ================================================================== *)
(** ** RecipeTimer (js/utils/timer.js)                                  *)
(* ================================================================== *)

Module RecipeTimer.

(** References to a DOM element and to a callback function, and the handle
    [setInterval] and [setTimeout] return (a positive integer, hence truthy). *)
Definition element := N.
Definition callback := N.
Definition handle := positive.

(** What the timer does to its surroundings, in order. *)
Inductive effect : Type :=
| SetText (el : element) (text : string)
| ClassAdd (el : element) (classes : list string)
| ClassRemove (el : element) (classes : list string)
| PlaySound
| Call (cb : callback)
| UncaughtTypeError.

(** A task the browser holds: the repeating tick installed by [setInterval]
    or the one-shot display reset installed by [setTimeout], with its delay
    in milliseconds.  The two arrow functions passed to [setInterval] have
    the same body ([tick] below) and capture nothing but [this]. *)
Inductive task : Type :=
| Interval (ms : Z)
| Timeout (ms : Z).

(** The fields of the [RecipeTimer] object, then the browser.  Seconds are
    integers, as the callers pass [minutes * 60]; the [console.log] lines of
    the source are left out. *)
Record world : Type := World {
  timerInterval : option handle;
  secondsRemaining : Z;
  currentTimerDisplay : option element;
  completionCallback : option callback;
  timers : gmap handle task;
  nextHandle : handle;
  trace : list effect
}.

Definition initial : world :=
  {| timerInterval := None; secondsRemaining := 0;
     currentTimerDisplay := None; completionCallback := None;
     timers := ∅; nextHandle := 1%positive; trace := [] |}.

Definition emit (e : effect) (w : world) : world :=
  World (timerInterval w) (secondsRemaining w) (currentTimerDisplay w)
        (completionCallback w) (timers w) (nextHandle w) (trace w ++ [e]).

Definition set_timerInterval (h : option handle) (w : world) : world :=
  World h (secondsRemaining w) (currentTimerDisplay w)
        (completionCallback w) (timers w) (nextHandle w) (trace w).

Definition set_secondsRemaining (s : Z) (w : world) : world :=
  World (timerInterval w) s (currentTimerDisplay w)
        (completionCallback w) (timers w) (nextHandle w) (trace w).

Definition set_currentTimerDisplay (d : option element) (w : world) : world :=
  World (timerInterval w) (secondsRemaining w) d
        (completionCallback w) (timers w) (nextHandle w) (trace w).

Definition set_completionCallback (c : option callback) (w : world) : world :=
  World (timerInterval w) (secondsRemaining w) (currentTimerDisplay w)
        c (timers w) (nextHandle w) (trace w).

(** [setInterval] / [setTimeout]: register the task under a fresh handle. *)
Definition schedule (t : task) (w : world) : handle * world :=
  (nextHandle w,
   World (timerInterval w) (secondsRemaining w) (currentTimerDisplay w)
         (completionCallback w) (<[nextHandle w := t]> (timers w))
         (Pos.succ (nextHandle w)) (trace w)).

(** [clearInterval]: nothing happens on [null]. *)
Definition clearInterval (h : option handle) (w : world) : world :=
  match h with
  | Some i =>
      World (timerInterval w) (secondsRemaining w) (currentTimerDisplay w)
            (completionCallback w) (delete i (timers w)) (nextHandle w)
            (trace w)
  | None => w
  end.

(** [Number.prototype.toString] on an integer. *)
Definition toString (z : Z) : string := NilZero.string_of_int (Z.to_int z).

(** [padStart(n, "0")]. *)
Definition padStart0 (n : nat) (s : string) : string :=
  String.concat "" (repeat "0" (n - String.length s)) ++ s.

(** The [MM:SS] text: [Math.floor] of the quotient, and the remainder of
    [%], which takes the sign of the dividend. *)
Definition formattedTime (secondsRemaining : Z) : string :=
  let minutes := (secondsRemaining / 60)%Z in
  let seconds := Z.rem secondsRemaining 60 in
  padStart0 2 (toString minutes) ++ ":" ++ padStart0 2 (toString seconds).

Definition updateTimerDisplay (w : world) : world :=
  match currentTimerDisplay w with
  | Some d =>
      let w := emit (SetText d (formattedTime (secondsRemaining w))) w in
      if (secondsRemaining w <=? 10)%Z
      then emit (ClassAdd d ["text-danger"; "fw-bold"]) w
      else emit (ClassRemove d ["text-danger"; "fw-bold"]) w
  | None => w
  end.

Definition playTimerCompleteSound (w : world) : world := emit PlaySound w.

Definition completeTimer (w : world) : world :=
  let w := clearInterval (timerInterval w) w in
  let w := set_timerInterval None w in
  let w := playTimerCompleteSound w in
  let w :=
    match currentTimerDisplay w with
    | Some d =>
        let w := emit (SetText d "DONE!") w in
        let w := emit (ClassAdd d ["bg-success"; "text-white"; "fw-bold"]) w in
        snd (schedule (Timeout 3000) w)
    | None => w
    end in
  match completionCallback w with
  | Some cb => emit (Call cb) w
  | None => w
  end.

(** The body of the arrow function given to [setInterval]. *)
Definition tick (w : world) : world :=
  let w := set_secondsRemaining (secondsRemaining w - 1)%Z w in
  let w := updateTimerDisplay w in
  if (secondsRemaining w <=? 0)%Z then completeTimer w else w.

(** The body of the arrow function given to [setTimeout]: it reads
    [this.currentTimerDisplay] when it runs. *)
Definition resetStyling (w : world) : world :=
  match currentTimerDisplay w with
  | Some d =>
      let w := emit (ClassRemove d ["bg-success"; "text-white"; "fw-bold"]) w in
      emit (SetText d "00:00") w
  | None => emit UncaughtTypeError w
  end.

Definition isRunning (w : world) : bool :=
  match timerInterval w with Some _ => true | None => false end.

Definition stopTimer (w : world) : world :=
  match timerInterval w with
  | Some i =>
      let w := clearInterval (Some i) w in
      let w := set_timerInterval None w in
      let w := set_secondsRemaining 0 w in
      match currentTimerDisplay w with
      | Some _ => updateTimerDisplay w
      | None => w
      end
  | None => w
  end.

Definition startTimer (seconds : Z) (displayElement : option element)
    (callback : option callback) (w : world) : world :=
  let w := stopTimer w in
  let w := set_secondsRemaining seconds w in
  let w := set_currentTimerDisplay displayElement w in
  let w := set_completionCallback callback w in
  let w := updateTimerDisplay w in
  let scheduled := schedule (Interval 1000) w in
  set_timerInterval (Some (fst scheduled)) (snd scheduled).

Definition pauseTimer (w : world) : world :=
  match timerInterval w with
  | Some i =>
      let w := clearInterval (Some i) w in
      set_timerInterval None w
  | None => w
  end.

Definition resumeTimer (w : world) : world :=
  match timerInterval w with
  | None =>
      if (0 <? secondsRemaining w)%Z then
        let scheduled := schedule (Interval 1000) w in
        set_timerInterval (Some (fst scheduled)) (snd scheduled)
      else w
  | Some _ => w
  end.

(** What can happen to the timer: a call of one of its methods, or the
    browser running the task registered under a handle.  A handle that was
    cleared, or a timeout that already ran, does nothing. *)
Inductive event : Type :=
| StartTimer (seconds : Z) (displayElement : option element)
    (callback : option callback)
| StopTimer
| PauseTimer
| ResumeTimer
| Fire (h : handle).

(** The browser runs the task under [h]: an interval stays registered, a
    timeout is dropped before its function runs. *)
Definition fire (h : handle) (w : world) : world :=
  match timers w !! h with
  | Some (Interval _) => tick w
  | Some (Timeout _) => resetStyling (clearInterval (Some h) w)
  | None => w
  end.

Definition step (w : world) (e : event) : world :=
  match e with
  | StartTimer s d c => startTimer s d c w
  | StopTimer => stopTimer w
  | PauseTimer => pauseTimer w
  | ResumeTimer => resumeTimer w
  | Fire h => fire h w
  end.

Definition run (w : world) (es : list event) : world := fold_left step es w.

(** The callbacks an effect list invokes. *)
Definition calls (tr : list effect) : list callback :=
  flat_map (fun e => match e with Call cb => [cb] | _ => [] end) tr.

(** *** Notions the properties are stated with *)

(** The object and the browser agree: the only interval the browser holds
    is the one [timerInterval] names, and handles not yet handed out are
    free. *)
Record consistent (w : world) : Prop := Consistent {
  interval_is_current : forall h ms,
    timers w !! h = Some (Interval ms) -> timerInterval w = Some h;
  current_is_interval : forall h,
    timerInterval w = Some h -> timers w !! h = Some (Interval 1000%Z);
  handles_fresh : forall h,
    (nextHandle w <= h)%positive -> timers w !! h = None
}.

(** The two writes of [updateTimerDisplay] on element [d] at [s] seconds. *)
Definition rendering (d : element) (s : Z) : list effect :=
  [ SetText d (formattedTime s);
    if (s <=? 10)%Z then ClassAdd d ["text-danger"; "fw-bold"]
    else ClassRemove d ["text-danger"; "fw-bold"] ].

(** The writes of [completeTimer] on element [d] with callback [c]. *)
Definition completion (d : element) (c : callback) : list effect :=
  [ PlaySound; SetText d "DONE!";
    ClassAdd d ["bg-success"; "text-white"; "fw-bold"]; Call c ].

(** An event that hands callback [c] to the timer. *)
Definition registers (c : callback) (e : event) : Prop :=
  match e with
  | StartTimer _ _ (Some c') => c' = c
  | _ => False
  end.

Definition is_start (e : event) : Prop :=
  match e with
  | StartTimer _ _ _ => True
  | _ => False
  end.

(** A [startTimer] with at least one second to count. *)
Definition positive_start (e : event) : Prop :=
  match e with
  | StartTimer s _ _ => (1 <= s)%Z
  | _ => True
  end.

(** The countdown is at or above zero, and above zero while it runs. *)
Record counting (w : world) : Prop := Counting {
  remaining_nonneg : (0 <= secondsRemaining w)%Z;
  running_positive : isRunning w = true -> (1 <= secondsRemaining w)%Z
}.

End RecipeTimer.


(* ================================================================== *)
(** ** MeasurementConverter.formatMeasurement (js/accessibility.js)     *)
(* ================================================================== *)

Module MeasurementFormat.
Import Js MeasurementConverter.
Local Open Scope Q_scope.

(** [Math.abs(fraction - c) < 0.01]. *)
Definition near (fraction c : Q) : bool :=
  negb (Qle_bool 0.01 (Qabs (fraction - c))).

(** [x.toFixed(2)] for a finite [x >= 0]: the nearest multiple of 0.01, the
    larger one on a tie, written with two decimals. *)
Definition toFixed2 (x : Q) : string :=
  let n := Qfloor (x * 100 + (1 # 2)) in
  (RecipeTimer.toString (n / 100) ++ "." ++
   RecipeTimer.padStart0 2 (RecipeTimer.toString (n mod 100)))%string.

(** The chain of tests that picks the fraction glyph. *)
Definition fractionString (fraction : Q) : string :=
  if near fraction 0.25 then "¼"
  else if near fraction 0.5 then "½"
  else if near fraction 0.75 then "¾"
  else if (near fraction 0.33 || near fraction 0.333)%bool then "⅓"
  else if (near fraction 0.67 || near fraction 0.666)%bool then "⅔"
  else if near fraction 0.125 then "⅛"
  else if near fraction 0.375 then "⅜"
  else if near fraction 0.625 then "⅝"
  else if near fraction 0.875 then "⅞"
  else toFixed2 fraction.

(** [formatMeasurement].  [amount % 1 !== 0] holds for NaN and for every
    finite number that is not whole; with NaN every comparison fails and
    both [toFixed] and the template give the text NaN.  A whole amount is
    written by the template as its decimal numeral. *)
Definition formatMeasurement (amount : number) (unit : string) : string :=
  let formattedAmount :=
    match amount with
    | NaN => "NaN"
    | Num a =>
        let whole := Qfloor a in
        if Qeq_bool a (inject_Z whole) then RecipeTimer.toString whole
        else
          let fraction := a - inject_Z whole in
          let fractionString := fractionString fraction in
          if (0 <? whole)%Z
          then (RecipeTimer.toString whole ++ " " ++ fractionString)%string
          else fractionString
    end in
  (formattedAmount ++ " " ++ unit)%string.



End MeasurementFormat.

(* ================================================================== *)
(** ** Measures on timer histories                                      *)
(* ================================================================== *)

Module TimerMeasures.
Import RecipeTimer.

(** How many [startTimer] calls of a history hand over a callback. *)
Fixpoint startsWithCallback (es : list event) : nat :=
  match es with
  | [] => 0
  | StartTimer _ _ (Some _) :: rest => S (startsWithCallback rest)
  | _ :: rest => startsWithCallback rest
  end.

(** A countdown that can still complete: it is running, or it is paused
    with time left, so that [resumeTimer] takes it up again. *)
Definition armed (w : world) : bool :=
  (isRunning w || (0 <? secondsRemaining w)%Z)%bool.

(** The callback invocations still owed: one when an armed countdown holds a
    callback. *)
Definition owed (w : world) : nat :=
  match completionCallback w with
  | Some _ => if armed w then 1 else 0
  | None => 0
  end.

(** The decimal digit character of [k], and a number below 100 written with
    two of them. *)
Definition digit (k : Z) : ascii := ascii_of_N (48 + Z.to_N k).

Definition twoDigits (k : Z) : string :=
  String (digit (k / 10)) (String (digit (k mod 10)) EmptyString).

End TimerMeasures.

(* ================================================================== *)
(** ** Properties of the converter                                      *)
(* ================================================================== *)

Module ConverterProps.
Import Js MeasurementConverter.
Local Open Scope Q_scope.

(** *** Rounding *)

Lemma Math_round_nearest (x : Q) :
  x - (1 # 2) < inject_Z (Math_round x) /\ inject_Z (Math_round x) <= x + (1 # 2).
Proof.
  unfold Math_round. split.
  - pose proof (Qlt_floor (x + (1 # 2))) as H.
    rewrite inject_Z_plus in H. change (inject_Z 1) with 1 in H. lra.
  - apply Qfloor_le.
Qed.

Lemma roundMeasurement_whole (v : Q) :
  10 <= v -> roundMeasurement v = inject_Z (Math_round v).
Proof.
  intros H. unfold roundMeasurement.
  apply Qle_bool_iff in H. now rewrite H.
Qed.

Lemma Qle_bool_false (x y : Q) : y < x -> Qle_bool x y = false.
Proof.
  intros H. destruct (Qle_bool x y) eqn:E; [|reflexivity].
  apply Qle_bool_iff in E. lra.
Qed.

Lemma roundMeasurement_quarter (v : Q) :
  1 <= v -> v < 10 ->
  roundMeasurement v = inject_Z (Math_round (v * 4)) / 4.
Proof.
  intros H1 H10. unfold roundMeasurement.
  rewrite (Qle_bool_false 10 v H10).
  apply Qle_bool_iff in H1. now rewrite H1.
Qed.

Lemma roundMeasurement_eighth (v : Q) :
  v < 1 -> roundMeasurement v = inject_Z (Math_round (v * 8)) / 8.
Proof.
  intros H1. unfold roundMeasurement.
  rewrite (Qle_bool_false 10 v) by lra.
  now rewrite (Qle_bool_false 1 v H1).
Qed.

(** *** What a conversion computes on a unit of the table *)

Lemma convertToImperial_computes (a : Q) (u t : string) (f ft : factor) :
  isSpecialCase u = false ->
  conversionFactors !! toLowerCase u = Some f ->
  unitMappings !! toLowerCase u = Some t ->
  conversionFactors !! t = Some ft ->
  convertToImperial (Num a) u =
    Return {| amount := Num (roundMeasurement (a * toMetric f * toImperial ft));
              unit := Val t |}.
Proof.
  intros Hs Hf Ht Hft. unfold convertToImperial, get.
  rewrite Hs, Hf, Ht. cbn [truthy negb toPropertyKey].
  rewrite Hft. destruct (isVolumeUnit (toLowerCase u)); reflexivity.
Qed.

Lemma convertToMetric_computes (a : Q) (u t : string) (f ft : factor) :
  isSpecialCase u = false ->
  conversionFactors !! toLowerCase u = Some f ->
  unitMappings !! toLowerCase u = Some t ->
  conversionFactors !! t = Some ft ->
  convertToMetric (Num a) u =
    Return {| amount := Num (roundMeasurement (a * toImperial f * toMetric ft));
              unit := Val t |}.
Proof.
  intros Hs Hf Ht Hft. unfold convertToMetric, get.
  rewrite Hs, Hf, Ht. cbn [truthy negb toPropertyKey].
  rewrite Hft. destruct (isVolumeUnit (toLowerCase u)); reflexivity.
Qed.

(** *** Pass-through *)

Lemma special_case_passthrough (a : number) (u : string) :
  isSpecialCase u = true ->
  convertToImperial a u = Return {| amount := a; unit := Val u |} /\
  convertToMetric a u = Return {| amount := a; unit := Val u |}.
Proof.
  intros H. unfold convertToImperial, convertToMetric. now rewrite H.
Qed.

Lemma undefined_passthrough (a : number) (u : string) :
  get conversionFactors (toLowerCase u) = Undefined ->
  convertToImperial a u = Return {| amount := a; unit := Val u |} /\
  convertToMetric a u = Return {| amount := a; unit := Val u |}.
Proof.
  intros H. unfold convertToImperial, convertToMetric. rewrite H.
  destruct (isSpecialCase u); split; reflexivity.
Qed.

(** C1 (evaluation at the failing inputs).  [convertToMetric(1, 'cup')]
    returns 8 ml, where pivoting through the base unit gives the rounding of
    236.588, that is 237 ml; [convertToImperial(100, 'g')] returns 100 oz,
    where it gives the rounding of 3.5274, that is 3.5 oz.  The second factor
    is read from the target unit's entry for the same system as the result,
    which is the target's scale to that system's base, not from the base. *)
Theorem C1_conversion_keeps_no_quantity :
  same_measurement (convertToMetric (Num 1) "cup") 8 "ml" /\
  roundMeasurement 236.588 == 237 /\
  ~ same_measurement (convertToMetric (Num 1) "cup")
      (roundMeasurement 236.588) "ml" /\
  same_measurement (convertToImperial (Num 100) "g") 100 "oz" /\
  roundMeasurement 3.5274 == 3.5 /\
  ~ same_measurement (convertToImperial (Num 100) "g")
      (roundMeasurement 3.5274) "oz".
Proof.
  repeat split; try reflexivity.
  - intros [H _]. vm_compute in H. discriminate.
  - intros [H _]. vm_compute in H. discriminate.
Qed.

(** C2 (evaluation at the failing input).  One litre converted to imperial
    is reported as 32000 quart, and converted back as 1024000000 l; the pair
    100 g -> oz -> g of the specification does come back as 100 g, the two
    factors involved being 1. *)
Theorem C2_round_trip_of_a_litre :
  same_measurement (convertToImperial (Num 1) "l") 32000 "quart" /\
  same_measurement (roundTrip (Num 1) "l") 1024000000 "l" /\
  same_measurement (roundTrip (Num 100) "g") 100 "g".
Proof. repeat split; reflexivity. Qed.

(** C7, as the code has it.  The tier is chosen by the value itself, not by
    its absolute value: from 10 on the result is the nearest integer, from 1
    on the nearest quarter, and below 1 (every negative value included) the
    nearest eighth, a tie going to the larger candidate; 23.7 gives 24, 3.1
    gives 3 and 0.6 gives 0.625. *)
Theorem C7_rounding_tiers (v : Q) :
  (10 <= v ->
   exists n : Z, roundMeasurement v == inject_Z n /\
     v - (1 # 2) < roundMeasurement v /\ roundMeasurement v <= v + (1 # 2)) /\
  (1 <= v -> v < 10 ->
   exists n : Z, roundMeasurement v == inject_Z n / 4 /\
     v - (1 # 8) < roundMeasurement v /\ roundMeasurement v <= v + (1 # 8)) /\
  (v < 1 ->
   exists n : Z, roundMeasurement v == inject_Z n / 8 /\
     v - (1 # 16) < roundMeasurement v /\
     roundMeasurement v <= v + (1 # 16)) /\
  roundMeasurement 23.7 == 24 /\
  roundMeasurement 3.1 == 3 /\
  roundMeasurement 0.6 == 0.625.
Proof.
  repeat split; try reflexivity.
  - intros H. rewrite (roundMeasurement_whole v H).
    exists (Math_round v). split; [reflexivity|].
    apply Math_round_nearest.
  - intros H1 H10. rewrite (roundMeasurement_quarter v H1 H10).
    exists (Math_round (v * 4)). split; [reflexivity|].
    destruct (Math_round_nearest (v * 4)) as [Hlo Hhi].
    change (inject_Z (Math_round (v * 4)) / 4)
      with (inject_Z (Math_round (v * 4)) * (1 # 4)).
    split; lra.
  - intros H1. rewrite (roundMeasurement_eighth v H1).
    exists (Math_round (v * 8)). split; [reflexivity|].
    destruct (Math_round_nearest (v * 8)) as [Hlo Hhi].
    change (inject_Z (Math_round (v * 8)) / 8)
      with (inject_Z (Math_round (v * 8)) * (1 # 8)).
    split; lra.
Qed.

Lemma C7_rounding_tiers_witness :
  (exists n : Z, roundMeasurement 23.7 == inject_Z n /\
     23.7 - (1 # 2) < roundMeasurement 23.7 /\
     roundMeasurement 23.7 <= 23.7 + (1 # 2)) /\
  (exists n : Z, roundMeasurement 3.1 == inject_Z n / 4 /\
     3.1 - (1 # 8) < roundMeasurement 3.1 /\
     roundMeasurement 3.1 <= 3.1 + (1 # 8)) /\
  (exists n : Z, roundMeasurement 0.6 == inject_Z n / 8 /\
     0.6 - (1 # 16) < roundMeasurement 0.6 /\
     roundMeasurement 0.6 <= 0.6 + (1 # 16)).
Proof.
  split; [|split].
  - apply (proj1 (C7_rounding_tiers 23.7)). vm_compute. discriminate.
  - apply (proj1 (proj2 (C7_rounding_tiers 3.1))).
    + vm_compute. discriminate.
    + reflexivity.
  - apply (proj1 (proj2 (proj2 (C7_rounding_tiers 0.6)))). reflexivity.
Defined.

(** C7 as stated fails on a negative value: -23.7 has absolute value at
    least 10, yet it is sent to -23.75, which is no integer. *)
Lemma C7_negative_value_counterexample :
  10 <= Qabs (-23.7) /\
  roundMeasurement (-23.7) == -23.75 /\
  ~ (exists n : Z, roundMeasurement (-23.7) == inject_Z n).
Proof.
  split; [|split].
  - vm_compute. discriminate.
  - reflexivity.
  - intros [n H].
    assert (E : -23.75 == inject_Z n).
    { rewrite <- H. reflexivity. }
    unfold Qeq in E. cbn in E. lia.
Qed.

(** C8 (evaluation at the failing input).  The string [constructor] is no
    marker and no key of the factor table, yet both conversions throw a
    TypeError on it: the table lookup finds the member inherited from
    [Object.prototype], which passes the truthiness test, and the entry of
    the target unit read next is [undefined].  [__proto__] behaves alike. *)
Theorem C8_inherited_name_throws (a : number) :
  isSpecialCase "constructor" = false /\
  conversionFactors !! toLowerCase "constructor" = None /\
  convertToImperial a "constructor" = TypeError /\
  convertToMetric a "constructor" = TypeError /\
  conversionFactors !! toLowerCase "__proto__" = None /\
  convertToImperial a "__proto__" = TypeError /\
  convertToMetric a "__proto__" = TypeError.
Proof. repeat split; reflexivity. Qed.

(** C9, as the table has it.  On the metric side cup, pint and floz all
    become ml, whatever the amount; quart becomes l. *)
Theorem C9_metric_side_folding (a : number) :
  unitOf (convertToMetric a "cup") = Some (Val "ml") /\
  unitOf (convertToMetric a "pint") = Some (Val "ml") /\
  unitOf (convertToMetric a "floz") = Some (Val "ml") /\
  unitOf (convertToMetric a "quart") = Some (Val "l").
Proof. destruct a; repeat split; reflexivity. Qed.

(** C9 as stated fails for quart: its result is labelled l, not ml. *)
Lemma C9_quart_counterexample :
  unitOf (convertToMetric (Num 1) "quart") = Some (Val "l") /\
  unitOf (convertToMetric (Num 1) "quart") <> Some (Val "ml").
Proof. split; [reflexivity | discriminate]. Qed.

(** C10.  Asked for the imperial direction, cup and pint come back labelled
    ml for every finite amount, the target unit being read from the one
    mapping table; one cup comes back as 8 ml. *)
Theorem C10_imperial_of_cup_is_ml (a : Q) :
  unitOf (convertToImperial (Num a) "cup") = Some (Val "ml") /\
  unitOf (convertToImperial (Num a) "pint") = Some (Val "ml") /\
  same_measurement (convertToImperial (Num 1) "cup") 8 "ml".
Proof. repeat split; reflexivity. Qed.

End ConverterProps.

(* ================================================================== *)
(** ** Properties of the timer                                          *)
(* ================================================================== *)

Module TimerProps.
Import RecipeTimer.
Local Open Scope Z_scope.
Local Open Scope list_scope.

Ltac timer_unfold :=
  cbv beta iota zeta delta
    [step fire startTimer stopTimer pauseTimer resumeTimer tick
     completeTimer resetStyling updateTimerDisplay playTimerCompleteSound
     schedule clearInterval emit set_timerInterval set_secondsRemaining
     set_currentTimerDisplay set_completionCallback isRunning
     timerInterval secondsRemaining currentTimerDisplay completionCallback
     timers nextHandle trace fst snd] in *.

Ltac timer_fields :=
  cbv beta iota delta
    [timerInterval secondsRemaining currentTimerDisplay completionCallback
     timers nextHandle trace fst snd] in *.

(** Split on a test whose subject contains no further test. *)
Ltac timer_case :=
  match goal with
  | |- context [match ?x with _ => _ end] =>
      lazymatch x with
      | context [match _ with _ => _ end] => fail
      | _ => destruct x eqn:?
      end
  end.

(** Unfold the methods and split on every test they make. *)
Ltac timer_cases :=
  timer_unfold; repeat (timer_case; simplify_eq; timer_unfold).

Ltac timer_maps :=
  rewrite ?lookup_insert, ?lookup_delete in *;
  repeat case_decide; simplify_eq; try done.

Lemma consistent_initial : consistent initial.
Proof. split; cbn; intros; solve [discriminate | apply lookup_empty]. Qed.

Lemma consistent_step (w : world) (e : event) :
  consistent w -> consistent (step w e).
Proof.
  intros [H1 H2 H3]. destruct w as [ti sr d cb tm nh tr].
  destruct e; timer_cases.
  all: split; timer_unfold; intros; timer_maps.
  all: try (apply H3; lia).
  all: try match goal with
       | H : _ !! _ = Some (Interval _) |- _ =>
           pose proof (H1 _ _ H); simplify_eq; done
       end.
  all: try (by eauto).
  all: try (exfalso; lia).
  all: pose proof (H2 _ eq_refl); congruence.
Qed.

Lemma consistent_run (w : world) (es : list event) :
  consistent w -> consistent (run w es).
Proof.
  revert w. induction es as [|e es IH]; intros w Hw; [exact Hw|].
  apply IH, consistent_step, Hw.
Qed.

Lemma no_interval_when_stopped (w : world) (h : handle) (ms : Z) :
  consistent w -> timerInterval w = None ->
  timers w !! h <> Some (Interval ms).
Proof.
  intros Hw Hnone Hh. apply (interval_is_current w Hw) in Hh. congruence.
Qed.

(** *** What each method writes *)

Lemma calls_app (tr1 tr2 : list effect) :
  calls (tr1 ++ tr2) = calls tr1 ++ calls tr2.
Proof. apply flat_map_app. Qed.

Lemma stopTimer_running (w : world) (i : handle) :
  timerInterval w = Some i ->
  stopTimer w =
    World None 0 (currentTimerDisplay w) (completionCallback w)
      (delete i (timers w)) (nextHandle w)
      (trace w ++ match currentTimerDisplay w with
                  | Some d => rendering d 0
                  | None => []
                  end).
Proof.
  destruct w as [ti sr d cb tm nh tr]. intros Hti. timer_unfold. subst ti.
  destruct d; cbv beta iota; unfold rendering.
  - change (0 <=? 10) with true. cbv iota. now rewrite <- app_assoc.
  - now rewrite app_nil_r.
Qed.

Lemma stopTimer_not_running (w : world) :
  timerInterval w = None -> stopTimer w = w.
Proof. intros H. unfold stopTimer. now rewrite H. Qed.

Lemma stopTimer_schedule (w : world) :
  timerInterval (stopTimer w) = None /\
  nextHandle (stopTimer w) = nextHandle w /\
  completionCallback (stopTimer w) = completionCallback w /\
  currentTimerDisplay (stopTimer w) = currentTimerDisplay w.
Proof.
  destruct (timerInterval w) as [i|] eqn:E.
  - rewrite (stopTimer_running w i E). repeat split.
  - rewrite (stopTimer_not_running w E). repeat split. exact E.
Qed.

Lemma startTimer_display (s : Z) (d : element) (c : option callback)
    (w : world) :
  startTimer s (Some d) c w =
    World (Some (nextHandle w)) s (Some d) c
      (<[nextHandle w := Interval 1000]> (timers (stopTimer w)))
      (Pos.succ (nextHandle w))
      (trace (stopTimer w) ++ rendering d s).
Proof.
  destruct (stopTimer_schedule w) as (_ & Hn & _ & _).
  unfold startTimer. destruct (stopTimer w) as [ti sr d0 cb tm nh tr].
  timer_unfold. subst nh. unfold rendering.
  destruct (s <=? 10); now rewrite <- app_assoc.
Qed.

Lemma fire_tick (w : world) (i : handle) (ms : Z) (d : element) :
  timers w !! i = Some (Interval ms) ->
  currentTimerDisplay w = Some d ->
  1 < secondsRemaining w ->
  fire i w =
    World (timerInterval w) (secondsRemaining w - 1) (Some d)
      (completionCallback w) (timers w) (nextHandle w)
      (trace w ++ rendering d (secondsRemaining w - 1)).
Proof.
  destruct w as [ti sr d0 cb tm nh tr]. timer_unfold. intros Hi Hd Hs.
  unfold fire. timer_unfold. rewrite Hi. subst d0. timer_unfold.
  unfold rendering.
  destruct (sr - 1 <=? 10); timer_unfold;
    (destruct (sr - 1 <=? 0) eqn:E; [lia|]); now rewrite <- app_assoc.
Qed.

Lemma fire_last_tick (w : world) (i : handle) (ms : Z) (d : element)
    (c : callback) :
  timers w !! i = Some (Interval ms) ->
  timerInterval w = Some i ->
  currentTimerDisplay w = Some d ->
  completionCallback w = Some c ->
  secondsRemaining w <= 1 ->
  fire i w =
    World None (secondsRemaining w - 1) (Some d) (Some c)
      (<[nextHandle w := Timeout 3000]> (delete i (timers w)))
      (Pos.succ (nextHandle w))
      (trace w ++ rendering d (secondsRemaining w - 1) ++ completion d c).
Proof.
  destruct w as [ti sr d0 cb tm nh tr]. timer_unfold.
  intros Hi Hti Hd Hc Hs. unfold fire. timer_unfold. rewrite Hi.
  subst ti d0 cb. timer_unfold. unfold rendering, completion.
  destruct (sr - 1 <=? 10); timer_unfold;
    (destruct (sr - 1 <=? 0) eqn:E; [|lia]);
    rewrite <- !app_assoc; reflexivity.
Qed.

Lemma fire_timeout (w : world) (t : handle) (ms : Z) (d : element) :
  timers w !! t = Some (Timeout ms) ->
  currentTimerDisplay w = Some d ->
  fire t w =
    World (timerInterval w) (secondsRemaining w) (Some d)
      (completionCallback w) (delete t (timers w)) (nextHandle w)
      (trace w ++ [ ClassRemove d ["bg-success"; "text-white"; "fw-bold"];
                    SetText d "00:00" ]).
Proof.
  destruct w as [ti sr d0 cb tm nh tr]. timer_unfold. intros Ht Hd.
  unfold fire. timer_unfold. rewrite Ht. subst d0. timer_unfold.
  now rewrite <- app_assoc.
Qed.

(** *** Which callback can be invoked *)

Ltac trace_suffix :=
  rewrite <- ?app_assoc;
  first [ eexists; split; [reflexivity|]
        | exists []; split; [now rewrite app_nil_r|] ].

Lemma step_calls (w : world) (e : event) :
  exists added,
    trace (step w e) = trace w ++ added /\
    (forall c, In (Call c) added -> completionCallback (step w e) = Some c) /\
    completionCallback (step w e) =
      match e with
      | StartTimer _ _ c => c
      | _ => completionCallback w
      end.
Proof.
  destruct w as [ti sr d cb tm nh tr].
  destruct e; timer_cases; trace_suffix.
  all: split; [|reflexivity].
  all: cbn [In app]; intros ? ?; intuition congruence.
Qed.

Lemma run_never_calls (c : callback) (es : list event) (w : world) :
  completionCallback w <> Some c ->
  Forall (fun e => ~ registers c e) es ->
  exists added, trace (run w es) = trace w ++ added /\ ~ In (Call c) added.
Proof.
  revert w. induction es as [|e es IH]; intros w Hw Hes.
  - exists []. split; [now rewrite app_nil_r | intros []].
  - inversion Hes as [|? ? He Hes']; subst.
    destruct (step_calls w e) as (a1 & Ht1 & Hin1 & Hcb).
    assert (Hw' : completionCallback (step w e) <> Some c).
    { rewrite Hcb. destruct e as [s d [c'|]| | | |]; cbn in He; congruence. }
    destruct (IH (step w e) Hw' Hes') as (a2 & Ht2 & Hin2).
    exists (a1 ++ a2). split.
    + change (run w (e :: es)) with (run (step w e) es).
      rewrite Ht2, Ht1. now rewrite app_assoc.
    + rewrite in_app_iff. intros [H|H]; [|auto].
      apply Hin1 in H. congruence.
Qed.

(** Once the countdown is over (no tick scheduled, nothing left to count),
    only a new [startTimer] can make the timer invoke a callback. *)
Lemma over_step (w : world) (e : event) :
  consistent w -> timerInterval w = None -> secondsRemaining w <= 0 ->
  ~ is_start e ->
  timerInterval (step w e) = None /\
  secondsRemaining (step w e) <= 0 /\
  calls (trace (step w e)) = calls (trace w).
Proof.
  intros [H1 H2 H3]. destruct w as [ti sr d cb tm nh tr]. timer_unfold.
  intros -> Hsr He.
  destruct e; try (now destruct He); unfold step, fire; timer_cases.
  all: rewrite ?Z.ltb_lt in *; try lia.
  all: try match goal with
       | H : _ !! _ = Some (Interval _) |- _ =>
           pose proof (H1 _ _ H); discriminate
       end.
  all: rewrite ?calls_app; cbn [calls flat_map app]; rewrite ?app_nil_r.
  all: repeat split; solve [reflexivity | assumption].
Qed.

Lemma over_run (es : list event) (w : world) :
  consistent w -> timerInterval w = None -> secondsRemaining w <= 0 ->
  Forall (fun e => ~ is_start e) es ->
  calls (trace (run w es)) = calls (trace w).
Proof.
  revert w. induction es as [|e es IH]; intros w Hw Hti Hsr Hes.
  - reflexivity.
  - inversion Hes as [|? ? He Hes']; subst.
    destruct (over_step w e Hw Hti Hsr He) as (Hti' & Hsr' & Hcalls).
    change (run w (e :: es)) with (run (step w e) es).
    rewrite (IH (step w e)); auto using consistent_step.
Qed.

(** *** The countdown stays at or above zero when started above zero *)

Lemma counting_step (w : world) (e : event) :
  consistent w -> counting w -> positive_start e -> counting (step w e).
Proof.
  intros [H1 H2 H3] [Hn Hr]. destruct w as [ti sr d cb tm nh tr].
  timer_unfold. intros He.
  destruct e; unfold positive_start in He; timer_cases.
  all: rewrite ?Z.leb_le, ?Z.leb_gt, ?Z.ltb_lt, ?Z.ltb_ge in *.
  all: try match goal with
       | H : _ !! _ = Some (Interval _) |- _ =>
           pose proof (H1 _ _ H); simplify_eq
       end.
  all: try specialize (Hr eq_refl).
  all: split; timer_unfold; intros; first [lia | auto].
Qed.

(** C3.  From a consistent state, [startTimer(3, d, cb)] schedules a
    one-second interval; its three firings write 00:02, then 00:01, then
    00:00 followed at once by the sound, DONE! and one call of [cb]; that
    third firing clears the interval and leaves a 3000 ms timeout, which
    writes 00:00 when it runs; and whatever happens next, short of a new
    [startTimer], no callback is invoked again. *)
Theorem C3_countdown_of_three (w : world) (d : element) (cb : callback) :
  consistent w ->
  exists i t : handle,
    let w0 := startTimer 3 (Some d) (Some cb) w in
    let w1 := step w0 (Fire i) in
    let w2 := step w1 (Fire i) in
    let w3 := step w2 (Fire i) in
    timerInterval w0 = Some i /\
    timers w0 !! i = Some (Interval 1000) /\
    secondsRemaining w0 = 3 /\
    trace w1 = trace w0 ++
      [SetText d "00:02"; ClassAdd d ["text-danger"; "fw-bold"]] /\
    trace w2 = trace w1 ++
      [SetText d "00:01"; ClassAdd d ["text-danger"; "fw-bold"]] /\
    trace w3 = trace w2 ++
      [SetText d "00:00"; ClassAdd d ["text-danger"; "fw-bold"];
       PlaySound; SetText d "DONE!";
       ClassAdd d ["bg-success"; "text-white"; "fw-bold"]; Call cb] /\
    secondsRemaining w3 = 0 /\
    timerInterval w3 = None /\
    (forall h ms, timers w3 !! h <> Some (Interval ms)) /\
    timers w3 !! t = Some (Timeout 3000) /\
    trace (step w3 (Fire t)) = trace w3 ++
      [ClassRemove d ["bg-success"; "text-white"; "fw-bold"];
       SetText d "00:00"] /\
    (forall es, Forall (fun e => ~ is_start e) es ->
       calls (trace (run w3 es)) = calls (trace w3)).
Proof.
  intros Hw.
  pose proof (consistent_run w
    [StartTimer 3 (Some d) (Some cb); Fire (nextHandle w);
     Fire (nextHandle w); Fire (nextHandle w)] Hw) as Hw3.
  exists (nextHandle w), (Pos.succ (nextHandle w)).
  cbn [run fold_left step] in *. rewrite startTimer_display in *.
  set (tm := timers (stopTimer w)) in *.
  set (tr := trace (stopTimer w)) in *.
  set (n := nextHandle w) in *.
  cbv zeta.
  assert (Hn : <[n := Interval 1000]> tm !! n = Some (Interval 1000))
    by apply lookup_insert_eq.
  assert (E1 : forall s tr',
    1 < s ->
    fire n (World (Some n) s (Some d) (Some cb) (<[n := Interval 1000]> tm)
              (Pos.succ n) tr') =
    World (Some n) (s - 1) (Some d) (Some cb) (<[n := Interval 1000]> tm)
      (Pos.succ n) (tr' ++ rendering d (s - 1))).
  { intros s tr' Hs. now rewrite (fire_tick _ n 1000 d). }
  rewrite !E1 in * by lia.
  rewrite (fire_last_tick _ n 1000 d cb) in *
    by (timer_fields; first [exact Hn | reflexivity | lia]).
  timer_fields.
  match goal with
  | H : consistent ?x |- _ => set (w3 := x) in *
  end.
  assert (Ht : timers w3 !! Pos.succ n = Some (Timeout 3000))
    by apply lookup_insert_eq.
  repeat split; try reflexivity; try exact Hn.
  - intros h ms. now apply (no_interval_when_stopped w3).
  - exact Ht.
  - rewrite (fire_timeout w3 (Pos.succ n) 3000 d Ht eq_refl). reflexivity.
  - intros es Hes. apply over_run; [exact Hw3|reflexivity| |exact Hes].
    unfold w3. timer_fields. lia.
Qed.

Lemma C3_countdown_of_three_witness :
  consistent initial /\
  exists i t : handle,
    let w0 := startTimer 3 (Some 7%N) (Some 9%N) initial in
    let w3 := run w0 [Fire i; Fire i; Fire i] in
    timerInterval w0 = Some i /\
    secondsRemaining w3 = 0 /\
    timers w3 !! t = Some (Timeout 3000).
Proof.
  split; [exact consistent_initial|].
  destruct (C3_countdown_of_three initial 7%N 9%N consistent_initial)
    as (i & t & H).
  exists i, t. cbv zeta in *. cbn [run fold_left].
  repeat split; apply H.
Defined.

(** C4, as the code has it.  [stopTimer] acts only while a tick is
    scheduled: it then cancels it, sets [secondsRemaining] to 0 and writes
    00:00 to the display, if there is one.  In every state it invokes no
    callback and leaves the timer not running with no tick scheduled; when
    no tick is scheduled (paused, grace period, idle) it changes nothing. *)
Theorem C4_stopTimer (w : world) :
  consistent w ->
  timerInterval (stopTimer w) = None /\
  (forall h ms, timers (stopTimer w) !! h <> Some (Interval ms)) /\
  calls (trace (stopTimer w)) = calls (trace w) /\
  (forall i, timerInterval w = Some i ->
     secondsRemaining (stopTimer w) = 0 /\
     timers (stopTimer w) !! i = None /\
     trace (stopTimer w) =
       trace w ++
       match currentTimerDisplay w with
       | Some d => [SetText d "00:00"; ClassAdd d ["text-danger"; "fw-bold"]]
       | None => []
       end) /\
  (timerInterval w = None -> stopTimer w = w).
Proof.
  intros Hw.
  pose proof (consistent_step w StopTimer Hw) as Hw'. cbn [step] in Hw'.
  destruct (stopTimer_schedule w) as (Hti & _).
  split; [exact Hti|]. split.
  { intros h ms. now apply no_interval_when_stopped. }
  destruct (timerInterval w) as [i|] eqn:E.
  - rewrite (stopTimer_running w i E).
    destruct w as [ti sr d cb tm nh tr]. timer_fields. split; [|split].
    + rewrite calls_app. destruct d; apply app_nil_r.
    + intros j Hj. injection Hj as <-.
      split; [reflexivity|]. split; [apply lookup_delete_eq|].
      destruct d; reflexivity.
    + discriminate.
  - rewrite (stopTimer_not_running w E).
    split; [reflexivity|]. split; [discriminate | now intros].
Qed.

Lemma C4_stopTimer_witness :
  consistent (startTimer 10 (Some 7%N) (Some 9%N) initial) /\
  secondsRemaining
    (stopTimer (startTimer 10 (Some 7%N) (Some 9%N) initial)) = 0 /\
  calls (trace (stopTimer (startTimer 10 (Some 7%N) (Some 9%N) initial))) =
    calls (trace (startTimer 10 (Some 7%N) (Some 9%N) initial)).
Proof.
  assert (Hw : consistent (startTimer 10 (Some 7%N) (Some 9%N) initial))
    by exact (consistent_step initial
                (StartTimer 10 (Some 7%N) (Some 9%N)) consistent_initial).
  split; [exact Hw|].
  destruct (C4_stopTimer _ Hw) as (_ & _ & Hcalls & Hrun & _).
  split; [|exact Hcalls].
  exact (proj1 (Hrun 1%positive eq_refl)).
Defined.

(** C4 as stated fails in the paused state: after [startTimer(10, d, cb)],
    two ticks and [pauseTimer()], a call of [stopTimer()] leaves
    [secondsRemaining] at 8 and writes nothing, and [resumeTimer()] then
    takes the countdown up again. *)
Lemma C4_paused_counterexample :
  let w := run initial
             [StartTimer 10 (Some 7%N) (Some 9%N); Fire 1%positive;
              Fire 1%positive; PauseTimer] in
  isRunning w = false /\
  secondsRemaining (stopTimer w) = 8 /\
  secondsRemaining (stopTimer w) <> 0 /\
  trace (stopTimer w) = trace w /\
  isRunning (resumeTimer (stopTimer w)) = true.
Proof. vm_compute. repeat split; discriminate. Qed.

(** C5.  When [startTimer] is called while a countdown is running, the
    running interval is no longer scheduled when the call returns, a new
    one-second interval is, the count is the new [seconds], and, as long as
    the earlier callback is not handed to the timer again, it is never
    invoked, whatever happens next. *)
Theorem C5_restart_discards_callback (w : world) (i0 : handle)
    (c0 : callback) (s : Z) (d : option element) (c1 : option callback)
    (es : list event) :
  consistent w ->
  timerInterval w = Some i0 ->
  completionCallback w = Some c0 ->
  c1 <> Some c0 ->
  Forall (fun e => ~ registers c0 e) es ->
  let w' := startTimer s d c1 w in
  timers w' !! i0 = None /\
  (exists i, timerInterval w' = Some i /\ i <> i0 /\
             timers w' !! i = Some (Interval 1000)) /\
  secondsRemaining w' = s /\
  completionCallback w' = c1 /\
  exists added,
    trace (run w' es) = trace w ++ added /\ ~ In (Call c0) added.
Proof.
  intros Hw Hi0 Hc0 Hc1 Hes w'.
  assert (Hne : nextHandle w <> i0).
  { intros Heq. pose proof (current_is_interval w Hw _ Hi0) as H.
    assert (H' : timers w !! nextHandle w = None)
      by (apply (handles_fresh w Hw); lia).
    rewrite Heq in H'. congruence. }
  destruct (step_calls w (StartTimer s d c1)) as (a1 & Ht1 & Hin1 & Hcb).
  cbn [step] in *. fold w' in Ht1, Hin1, Hcb.
  assert (Hshape :
    timerInterval w' = Some (nextHandle w) /\
    timers w' = <[nextHandle w := Interval 1000]> (delete i0 (timers w)) /\
    secondsRemaining w' = s).
  { unfold w', startTimer. rewrite (stopTimer_running w i0 Hi0).
    destruct w as [ti sr d0 cb tm nh tr]. timer_unfold.
    destruct d0, d; timer_cases; repeat split. }
  destruct Hshape as (Hti & Htm & Hs).
  split; [|split; [|split; [|split]]].
  - rewrite Htm, lookup_insert_ne by exact Hne. apply lookup_delete_eq.
  - exists (nextHandle w). rewrite Hti, Htm.
    repeat split; [exact Hne | apply lookup_insert_eq].
  - exact Hs.
  - exact Hcb.
  - assert (Hw' : completionCallback w' <> Some c0) by (rewrite Hcb; exact Hc1).
    destruct (run_never_calls c0 es w' Hw' Hes) as (a2 & Ht2 & Hin2).
    exists (a1 ++ a2). split.
    + rewrite Ht2, Ht1. now rewrite app_assoc.
    + rewrite in_app_iff. intros [H|H]; [|auto].
      apply Hin1 in H. congruence.
Qed.

Lemma C5_restart_discards_callback_witness :
  let w := startTimer 60 (Some 7%N) (Some 9%N) initial in
  let w' := startTimer 5 (Some 7%N) (Some 4%N) w in
  consistent w /\
  timers w' !! 1%positive = None /\
  secondsRemaining w' = 5 /\
  exists added,
    trace (run w' [Fire 2; Fire 2; Fire 2; Fire 2; Fire 2; Fire 1]%positive) =
      trace w ++ added /\
    ~ In (Call 9%N) added.
Proof.
  intros w w'.
  assert (Hw : consistent w)
    by exact (consistent_step initial
                (StartTimer 60 (Some 7%N) (Some 9%N)) consistent_initial).
  split; [exact Hw|].
  destruct (C5_restart_discards_callback w 1%positive 9%N 5 (Some 7%N)
              (Some 4%N) [Fire 2; Fire 2; Fire 2; Fire 2; Fire 2; Fire 1]%positive
              Hw eq_refl eq_refl)
    as (H1 & _ & H3 & _ & H5).
  - discriminate.
  - repeat constructor; intros [].
  - repeat split; assumption.
Defined.

(** C6, as the code has it.  When every [startTimer] is given at least one
    second, [secondsRemaining] is at or above zero in every state the timer
    can reach from page load, whatever is called and whatever fires. *)
Theorem C6_remaining_nonneg (es : list event) :
  Forall positive_start es ->
  0 <= secondsRemaining (run initial es).
Proof.
  intros Hes.
  enough (H : forall w, consistent w -> counting w ->
                        counting (run w es)).
  { apply (remaining_nonneg _ (H initial consistent_initial
      (Counting initial (Z.le_refl 0) (fun H => False_ind _
         (Bool.diff_false_true H))))). }
  induction Hes as [|e es He Hes IH]; intros w Hw Hc; [exact Hc|].
  change (run w (e :: es)) with (run (step w e) es).
  apply IH; [now apply consistent_step | now apply counting_step].
Qed.

Lemma C6_remaining_nonneg_witness :
  Forall positive_start
    [StartTimer 2 (Some 7%N) None; Fire 1; PauseTimer; ResumeTimer; Fire 2;
     StopTimer]%positive /\
  0 <= secondsRemaining
         (run initial
            [StartTimer 2 (Some 7%N) None; Fire 1; PauseTimer; ResumeTimer;
             Fire 2; StopTimer]%positive).
Proof.
  assert (H : Forall positive_start
    [StartTimer 2 (Some 7%N) None; Fire 1; PauseTimer; ResumeTimer; Fire 2;
     StopTimer]%positive).
  { repeat constructor. cbn. lia. }
  split; [exact H | exact (C6_remaining_nonneg _ H)].
Defined.

(** C6 as stated fails when the countdown is started at zero or below:
    after [startTimer(0, d, cb)] the first tick leaves [secondsRemaining]
    at -1 (and writes -1:-1), and [startTimer(-5, d, cb)] sets it to -5 at
    once. *)
Lemma C6_start_at_zero_counterexample :
  secondsRemaining
    (run initial [StartTimer 0 (Some 7%N) (Some 9%N); Fire 1%positive]) = -1 /\
  ~ 0 <= secondsRemaining
           (run initial
              [StartTimer 0 (Some 7%N) (Some 9%N); Fire 1%positive]) /\
  secondsRemaining (run initial [StartTimer (-5) (Some 7%N) (Some 9%N)]) = -5.
Proof. vm_compute. repeat split. intros H. now apply H. Qed.

End TimerProps.

(* ================================================================== *)
(** ** Further properties of the timer                                  *)
(* ================================================================== *)

Module TimerExtras.
Import RecipeTimer TimerMeasures TimerProps.
Local Open Scope Z_scope.
Local Open Scope list_scope.











(** X4.  In every state the timer can reach from page load, the browser
    holds at most one interval, and [isRunning] answers true exactly when
    it holds one. *)
Theorem X4_at_most_one_interval (es : list event) :
  let w := run initial es in
  (forall h1 h2 ms1 ms2,
     timers w !! h1 = Some (Interval ms1) ->
     timers w !! h2 = Some (Interval ms2) -> h1 = h2) /\
  (isRunning w = true <-> exists h, timers w !! h = Some (Interval 1000)).
Proof.
  intros w. pose proof (consistent_run initial es consistent_initial) as Hw.
  fold w in Hw. split.
  - intros h1 h2 ms1 ms2 H1 H2.
    apply (interval_is_current w Hw) in H1, H2. congruence.
  - unfold isRunning. split.
    + destruct (timerInterval w) as [i|] eqn:E; [|discriminate].
      intros _. exists i. now apply (current_is_interval w Hw).
    + intros [h Hh]. apply (interval_is_current w Hw) in Hh. now rewrite Hh.
Qed.

(** X5.  Only a tick invokes the completion callback: [startTimer],
    [stopTimer], [pauseTimer] and [resumeTimer] never do, in any state. *)
Theorem X5_methods_never_call_back (w : world) (s : Z)
    (d : option element) (c : option callback) :
  calls (trace (startTimer s d c w)) = calls (trace w) /\
  calls (trace (stopTimer w)) = calls (trace w) /\
  calls (trace (pauseTimer w)) = calls (trace w) /\
  calls (trace (resumeTimer w)) = calls (trace w).
Proof.
  destruct w as [ti sr d0 cb tm nh tr].
  repeat split; timer_cases;
    rewrite ?calls_app; cbn [calls flat_map app]; rewrite ?app_nil_r;
    reflexivity.
Qed.

Lemma owed_step (w : world) (e : event) :
  consistent w ->
  (length (calls (trace (step w e))) + owed (step w e) <=
   length (calls (trace w)) + owed w + startsWithCallback [e])%nat.
Proof.
  intros [H1 H2 H3]. destruct w as [ti sr d cb tm nh tr].
  unfold owed, armed.
  destruct e as [s d' [c|]| | | |]; cbn [startsWithCallback]; timer_cases.
  all: rewrite ?calls_app, ?length_app; cbn [calls flat_map app length].
  all: rewrite ?Z.leb_le, ?Z.leb_gt, ?Z.ltb_lt, ?Z.ltb_ge in *.
  all: try match goal with
       | H : _ !! _ = Some (Interval _) |- _ =>
           pose proof (H1 _ _ H); simplify_eq
       end.
  all: cbn [orb] in *; try discriminate; try lia.
Qed.

(** X6.  Exactly-once delivery, over whole histories: in every state the
    timer can reach from page load, the number of callback invocations so
    far is at most the number of [startTimer] calls that handed over a
    callback; no countdown calls back twice, whatever is paused, resumed,
    stopped or fired in between. *)
Theorem X6_at_most_one_call_per_start (es : list event) :
  (length (calls (trace (run initial es))) <= startsWithCallback es)%nat.
Proof.
  enough (H : forall w, consistent w ->
    (length (calls (trace (run w es))) + owed (run w es) <=
     length (calls (trace w)) + owed w + startsWithCallback es)%nat).
  { specialize (H initial consistent_initial). cbn in H. lia. }
  induction es as [|e es IH]; intros w Hw.
  - cbn [run fold_left startsWithCallback]. lia.
  - change (run w (e :: es)) with (run (step w e) es).
    specialize (IH (step w e) (consistent_step w e Hw)).
    pose proof (owed_step w e Hw) as Hs.
    assert (Hc : startsWithCallback (e :: es) =
                 (startsWithCallback [e] + startsWithCallback es)%nat).
    { destruct e as [s d [c|]| | | |]; reflexivity. }
    lia.
Qed.

(** X7.  For a count from 0 up to 99 minutes 59 seconds the display text is
    exactly two digits of minutes, a colon and two digits of seconds. *)
Theorem X7_formattedTime_is_MM_SS (s : Z) :
  0 <= s < 6000 ->
  formattedTime s =
    (twoDigits (s / 60) ++ ":" ++ twoDigits (s mod 60))%string.
Proof.
  intros Hs.
  assert (Hpad : forall k, 0 <= k < 100 ->
                   padStart0 2 (toString k) = twoDigits k).
  { intros k Hk.
    assert (Hall : forallb
              (fun n => String.eqb (padStart0 2 (toString (Z.of_nat n)))
                          (twoDigits (Z.of_nat n)))
              (seq 0 100) = true) by (vm_compute; reflexivity).
    rewrite forallb_forall in Hall.
    specialize (Hall (Z.to_nat k)).
    rewrite Z2Nat.id in Hall by lia.
    apply String.eqb_eq, Hall, in_seq. lia. }
  unfold formattedTime. rewrite Z.rem_mod_nonneg by lia.
  assert (Hm : 0 <= s mod 60 < 100)
    by (pose proof (Z.mod_pos_bound s 60); lia).
  assert (Hd : 0 <= s / 60 < 100)
    by (split; [apply Z.div_pos; lia | apply Z.div_lt_upper_bound; lia]).
  now rewrite (Hpad _ Hm), (Hpad _ Hd).
Qed.

Lemma X7_formattedTime_is_MM_SS_witness :
  formattedTime 754 = "12:34"%string.
Proof.
  rewrite (X7_formattedTime_is_MM_SS 754) by lia. reflexivity.
Defined.

Lemma fire_last_tick_shape (w : world) (i : handle) (ms : Z)
    (d : element) :
  timers w !! i = Some (Interval ms) ->
  timerInterval w = Some i ->
  currentTimerDisplay w = Some d ->
  secondsRemaining w <= 1 ->
  exists tr,
    fire i w =
      World None (secondsRemaining w - 1) (Some d) (completionCallback w)
        (<[nextHandle w := Timeout 3000]> (delete i (timers w)))
        (Pos.succ (nextHandle w)) tr.
Proof.
  destruct w as [ti sr d0 cb tm nh tr]. timer_unfold.
  intros Hi Hti Hd Hs. unfold fire. timer_unfold. rewrite Hi.
  subst ti d0. timer_unfold.
  destruct (sr - 1 <=? 10); timer_unfold;
    (destruct (sr - 1 <=? 0) eqn:E; [|lia]);
    destruct cb; eexists; reflexivity.
Qed.

(** X8.  The display reset that [completeTimer] leaves behind reads the
    current display when it runs, not the one that showed DONE!: if a new
    countdown is started on another element before it runs, the reset
    writes 00:00 to that element while the new countdown is running, and
    leaves its seconds untouched. *)
Theorem X8_reset_hits_current_display (w : world) (d1 d2 : element)
    (c1 c2 : option callback) (s1 s2 : Z) :
  s1 <= 1 ->
  let i := nextHandle w in
  let t := Pos.succ i in
  let w1 := step (startTimer s1 (Some d1) c1 w) (Fire i) in
  let w2 := startTimer s2 (Some d2) c2 w1 in
  timers w1 !! t = Some (Timeout 3000) /\
  timers w2 !! t = Some (Timeout 3000) /\
  isRunning (step w2 (Fire t)) = true /\
  secondsRemaining (step w2 (Fire t)) = s2 /\
  trace (step w2 (Fire t)) =
    trace w2 ++ [ClassRemove d2 ["bg-success"; "text-white"; "fw-bold"];
                 SetText d2 "00:00"].
Proof.
  intros Hs i t w1 w2.
  assert (H1 : exists tm tr,
    w1 = World None (s1 - 1) (Some d1) c1 (<[t := Timeout 3000]> tm)
           (Pos.succ t) tr).
  { subst w1 t i. rewrite startTimer_display. cbn [step].
    destruct (fire_last_tick_shape
      (World (Some (nextHandle w)) s1 (Some d1) c1
         (<[nextHandle w := Interval 1000]> (timers (stopTimer w)))
         (Pos.succ (nextHandle w)) (trace (stopTimer w) ++ rendering d1 s1))
      (nextHandle w) 1000 d1) as (tr & ->);
      [apply lookup_insert_eq | reflexivity | reflexivity | exact Hs |].
    eexists _, _. reflexivity. }
  destruct H1 as (tm & tr & H1).
  assert (H2 : w2 =
    World (Some (Pos.succ t)) s2 (Some d2) c2
      (<[Pos.succ t := Interval 1000]> (<[t := Timeout 3000]> tm))
      (Pos.succ (Pos.succ t)) (tr ++ rendering d2 s2)).
  { subst w2. rewrite H1, startTimer_display.
    now rewrite stopTimer_not_running by reflexivity. }
  assert (Ht : timers w2 !! t = Some (Timeout 3000)).
  { rewrite H2. timer_fields.
    rewrite lookup_insert_ne by lia. apply lookup_insert_eq. }
  split; [rewrite H1; apply lookup_insert_eq|].
  split; [exact Ht|]. cbn [step].
  rewrite (fire_timeout w2 t 3000 d2 Ht) by now rewrite H2.
  rewrite H2. repeat split.
Qed.

Lemma X8_reset_hits_current_display_witness :
  trace
    (run initial
       [StartTimer 1 (Some 7%N) None; Fire 1%positive;
        StartTimer 600 (Some 8%N) None; Fire 2%positive]) =
  trace
    (run initial
       [StartTimer 1 (Some 7%N) None; Fire 1%positive;
        StartTimer 600 (Some 8%N) None]) ++
  [ClassRemove 8%N ["bg-success"; "text-white"; "fw-bold"];
   SetText 8%N "00:00"].
Proof.
  exact (proj2 (proj2 (proj2 (proj2
    (X8_reset_hits_current_display initial 7%N 8%N None None 1 600
       (Z.le_refl 1)))))).
Defined.

End TimerExtras.

(* ================================================================== *)
(** ** Further properties of the converter                              *)
(* ================================================================== *)

Module ConverterExtras.
Import Js MeasurementConverter MeasurementFormat ConverterProps.
Local Open Scope Q_scope.

(** *** Rounding to integers *)

Lemma Qfloor_unique (x : Q) (m : Z) :
  inject_Z m <= x -> x < inject_Z (m + 1) -> Qfloor x = m.
Proof.
  intros Hlo Hhi.
  pose proof (Qfloor_le x) as H1. pose proof (Qlt_floor x) as H2.
  assert (A : inject_Z (Qfloor x) < inject_Z (m + 1)) by lra.
  assert (B : inject_Z m < inject_Z (Qfloor x + 1)) by lra.
  rewrite <- Zlt_Qlt in A, B. lia.
Qed.

Lemma Math_round_unique (x : Q) (m : Z) :
  inject_Z m - (1 # 2) <= x -> x < inject_Z m + (1 # 2) ->
  Math_round x = m.
Proof.
  intros Hlo Hhi. unfold Math_round. apply Qfloor_unique.
  - lra.
  - rewrite inject_Z_plus. change (inject_Z 1) with 1. lra.
Qed.

Lemma Math_round_le (x y : Q) : x <= y -> (Math_round x <= Math_round y)%Z.
Proof. intros H. unfold Math_round. apply Qfloor_resp_le. lra. Qed.


Lemma Math_round_upper (x : Q) (n : Z) :
  x <= inject_Z n -> (Math_round x <= n)%Z.
Proof.
  intros H. rewrite <- (Math_round_unique (inject_Z n) n) by lra.
  now apply Math_round_le.
Qed.

Lemma Math_round_lower (x : Q) (n : Z) :
  inject_Z n <= x -> (n <= Math_round x)%Z.
Proof.
  intros H. rewrite <- (Math_round_unique (inject_Z n) n) at 1 by lra.
  now apply Math_round_le.
Qed.

(** The tier a value falls in, with the bounds of its result. *)
Lemma roundMeasurement_cases (v : Q) :
  (10 <= v /\ roundMeasurement v = inject_Z (Math_round v) /\
   (10 <= Math_round v)%Z) \/
  (1 <= v /\ v < 10 /\
   roundMeasurement v = inject_Z (Math_round (v * 4)) / 4 /\
   (4 <= Math_round (v * 4) <= 40)%Z) \/
  (v < 1 /\ roundMeasurement v = inject_Z (Math_round (v * 8)) / 8 /\
   (Math_round (v * 8) <= 8)%Z).
Proof.
  destruct (Qlt_le_dec v 10) as [H10|H10];
    [destruct (Qlt_le_dec v 1) as [H1|H1]|].
  - right. right. split; [exact H1|]. split.
    + now apply roundMeasurement_eighth.
    + apply Math_round_upper. unfold inject_Z. lra.
  - right. left. repeat split; try assumption.
    + now apply roundMeasurement_quarter.
    + apply Math_round_lower. unfold inject_Z. lra.
    + apply Math_round_upper. unfold inject_Z. lra.
  - left. split; [exact H10|]. split.
    + now apply roundMeasurement_whole.
    + apply Math_round_lower. unfold inject_Z. lra.
Qed.

(** X9.  Rounding is idempotent: a rounded amount is a fixed point of
    [roundMeasurement], also where rounding crosses into the next tier
    (9.9 becomes 10, 0.97 becomes 1). *)
Theorem X9_roundMeasurement_idempotent (v : Q) :
  roundMeasurement (roundMeasurement v) == roundMeasurement v.
Proof.
  destruct (roundMeasurement_cases v)
    as [(Hv & -> & Hm)|[(Hv1 & Hv10 & -> & Hm)|(Hv & -> & Hm)]].
  - set (m := Math_round v) in *.
    assert (H : 10 <= inject_Z m).
    { change 10 with (inject_Z 10). now rewrite <- Zle_Qle. }
    rewrite (roundMeasurement_whole _ H).
    rewrite (Math_round_unique (inject_Z m) m) by lra. reflexivity.
  - set (m := Math_round (v * 4)) in *.
    change (inject_Z m / 4) with (inject_Z m * (1 # 4)).
    assert (Hlo : 4 <= inject_Z m).
    { change 4 with (inject_Z 4). rewrite <- Zle_Qle. lia. }
    destruct (Z.eq_dec m 40%Z) as [Heq|Hne].
    + rewrite Heq.
      rewrite roundMeasurement_whole by (unfold inject_Z; lra).
      rewrite (Math_round_unique _ 10) by (unfold inject_Z; lra).
      reflexivity.
    + assert (Hhi : inject_Z m <= 39).
      { change 39 with (inject_Z 39). rewrite <- Zle_Qle. lia. }
      rewrite roundMeasurement_quarter by lra.
      rewrite (Math_round_unique _ m) by lra.
      reflexivity.
  - set (m := Math_round (v * 8)) in *.
    change (inject_Z m / 8) with (inject_Z m * (1 # 8)).
    destruct (Z.eq_dec m 8%Z) as [Heq|Hne].
    + rewrite Heq.
      rewrite roundMeasurement_quarter by (unfold inject_Z; lra).
      rewrite (Math_round_unique _ 4) by (unfold inject_Z; lra).
      reflexivity.
    + assert (Hhi : inject_Z m <= 7).
      { change 7 with (inject_Z 7). rewrite <- Zle_Qle. lia. }
      rewrite roundMeasurement_eighth by lra.
      rewrite (Math_round_unique _ m) by lra.
      reflexivity.
Qed.

(** X10.  Rounding keeps the order of amounts, across the tiers as well:
    a larger value never rounds to a smaller result. *)
Theorem X10_roundMeasurement_monotone (v v' : Q) :
  v <= v' -> roundMeasurement v <= roundMeasurement v'.
Proof.
  intros Hle.
  destruct (roundMeasurement_cases v)
    as [(Hv & -> & Hm)|[(Hv1 & Hv10 & -> & Hm)|(Hv & -> & Hm)]];
  destruct (roundMeasurement_cases v')
    as [(Hv' & -> & Hm')|[(Hv1' & Hv10' & -> & Hm')|(Hv' & -> & Hm')]];
  try lra.
  all: repeat match goal with
       | |- context [inject_Z ?m / 4] =>
           change (inject_Z m / 4) with (inject_Z m * (1 # 4))
       | |- context [inject_Z ?m / 8] =>
           change (inject_Z m / 8) with (inject_Z m * (1 # 8))
       end.
  all: clear Hm Hm'.
  - rewrite <- Zle_Qle. apply Math_round_le, Hle.
  - assert (H : inject_Z (Math_round (v * 4)) <= 40).
    { change 40 with (inject_Z 40). rewrite <- Zle_Qle.
      apply Math_round_upper. unfold inject_Z. lra. }
    assert (H' : 10 <= inject_Z (Math_round v')).
    { change 10 with (inject_Z 10). rewrite <- Zle_Qle.
      apply Math_round_lower. unfold inject_Z. lra. }
    lra.
  - assert (H : inject_Z (Math_round (v * 4)) <=
                inject_Z (Math_round (v' * 4))).
    { rewrite <- Zle_Qle. apply Math_round_le. lra. }
    lra.
  - assert (H : inject_Z (Math_round (v * 8)) <= 8).
    { change 8 with (inject_Z 8). rewrite <- Zle_Qle.
      apply Math_round_upper. unfold inject_Z. lra. }
    assert (H' : 10 <= inject_Z (Math_round v')).
    { change 10 with (inject_Z 10). rewrite <- Zle_Qle.
      apply Math_round_lower. unfold inject_Z. lra. }
    lra.
  - assert (H : inject_Z (Math_round (v * 8)) <= 8).
    { change 8 with (inject_Z 8). rewrite <- Zle_Qle.
      apply Math_round_upper. unfold inject_Z. lra. }
    assert (H' : 4 <= inject_Z (Math_round (v' * 4))).
    { change 4 with (inject_Z 4). rewrite <- Zle_Qle.
      apply Math_round_lower. unfold inject_Z. lra. }
    lra.
  - assert (H : inject_Z (Math_round (v * 8)) <=
                inject_Z (Math_round (v' * 8))).
    { rewrite <- Zle_Qle. apply Math_round_le. lra. }
    lra.
Qed.

Lemma X10_roundMeasurement_monotone_witness :
  roundMeasurement 0.97 <= roundMeasurement 1.1.
Proof.
  apply (X10_roundMeasurement_monotone 0.97 1.1). vm_compute. discriminate.
Defined.

(** X11.  An amount vanishes in rounding exactly when it lies within a
    sixteenth of zero: the result is 0 if and only if
    [-1/16 <= v < 1/16]. *)
Theorem X11_roundMeasurement_zero (v : Q) :
  roundMeasurement v == 0 <-> - (1 # 16) <= v /\ v < 1 # 16.
Proof.
  destruct (roundMeasurement_cases v)
    as [(Hv & -> & Hm)|[(Hv1 & Hv10 & -> & Hm)|(Hv & -> & Hm)]].
  - split; [|lra]. intros H.
    rewrite Zle_Qle in Hm. unfold inject_Z at 1 in Hm. lra.
  - split; [|lra]. intros H. destruct Hm as [Hm _].
    rewrite Zle_Qle in Hm. unfold inject_Z at 1 in Hm.
    change (inject_Z (Math_round (v * 4)) / 4)
      with (inject_Z (Math_round (v * 4)) * (1 # 4)) in H. lra.
  - change (inject_Z (Math_round (v * 8)) / 8)
      with (inject_Z (Math_round (v * 8)) * (1 # 8)).
    destruct (Math_round_nearest (v * 8)) as [Hlo Hhi].
    split.
    + intros H. lra.
    + intros [H1 H2].
      rewrite (Math_round_unique (v * 8) 0) by (unfold inject_Z; lra).
      reflexivity.
Qed.

(** *** The two tables *)

Lemma special_case_not_in_table (u : string) :
  isSpecialCase u = true -> conversionFactors !! toLowerCase u = None.
Proof.
  unfold isSpecialCase. rewrite !Bool.orb_true_iff, !String.eqb_eq.
  intros [[[->| ->]| ->]| ->]; reflexivity.
Qed.

Lemma table_unit_cases (u : string) :
  is_Some (conversionFactors !! toLowerCase u) ->
  isSpecialCase u = false /\
  In (toLowerCase u)
     ["ml"; "l"; "floz"; "cup"; "pint"; "quart"; "tbsp"; "tsp"; "g"; "kg";
      "oz"; "lb"]%string.
Proof.
  intros [f Hf]. split.
  - destruct (isSpecialCase u) eqn:E; [|reflexivity].
    rewrite (special_case_not_in_table u E) in Hf. discriminate.
  - apply elem_of_list_to_map_2 in Hf.
    repeat (apply elem_of_cons in Hf as [Hf|Hf];
            [injection Hf as -> _; cbn [In]; tauto|]).
    now apply elem_of_nil in Hf.
Qed.

(** X12.  A unit of the factor table, in any letter case, always converts:
    neither direction throws, both give the unit the mapping table assigns
    to it, and that unit is again in both tables. *)
Theorem X12_table_units_always_convert (a : number) (u : string) :
  is_Some (conversionFactors !! toLowerCase u) ->
  exists t : string,
    unitMappings !! toLowerCase u = Some t /\
    unitOf (convertToImperial a u) = Some (Val t) /\
    unitOf (convertToMetric a u) = Some (Val t) /\
    is_Some (conversionFactors !! t) /\
    is_Some (unitMappings !! t).
Proof.
  intros H. destruct (table_unit_cases u H) as [Hs Hin].
  unfold convertToImperial, convertToMetric. rewrite Hs.
  cbn [In] in Hin.
  repeat (destruct Hin as [<-|Hin];
          [eexists; split; [reflexivity|];
           destruct a; repeat split; solve [reflexivity | eexists; reflexivity]|]).
  destruct Hin.
Qed.

Lemma X12_table_units_always_convert_witness :
  exists t : string,
    unitMappings !! toLowerCase "Cup" = Some t /\
    unitOf (convertToImperial (Num 2) "Cup") = Some (Val t) /\
    unitOf (convertToMetric (Num 2) "Cup") = Some (Val t) /\
    is_Some (conversionFactors !! t) /\
    is_Some (unitMappings !! t).
Proof.
  apply (X12_table_units_always_convert (Num 2) "Cup").
  eexists. reflexivity.
Defined.

(** X13.  Conversion does not depend on the letter case of a table unit:
    the unit as given and its lower-case form convert to the same result,
    in both directions. *)
Theorem X13_conversion_ignores_case (a : number) (u : string) :
  is_Some (conversionFactors !! toLowerCase u) ->
  convertToImperial a u = convertToImperial a (toLowerCase u) /\
  convertToMetric a u = convertToMetric a (toLowerCase u).
Proof.
  intros H. destruct (table_unit_cases u H) as [Hs Hin].
  unfold convertToImperial, convertToMetric. rewrite Hs.
  cbn [In] in Hin.
  repeat (destruct Hin as [<-|Hin];
          [destruct a; split; reflexivity|]).
  destruct Hin.
Qed.

Lemma X13_conversion_ignores_case_witness :
  convertToImperial (Num 3) "KG" = convertToImperial (Num 3) "kg".
Proof.
  refine (proj1 (X13_conversion_ignores_case (Num 3) "KG" _)).
  eexists. reflexivity.
Defined.

(** X14.  The mapping table never crosses measurement classes: the unit
    assigned to a volume unit is a volume unit, and the unit assigned to a
    weight unit is not. *)
Theorem X14_mapping_keeps_measurement_class (k t : string) :
  unitMappings !! k = Some t -> isVolumeUnit t = isVolumeUnit k.
Proof.
  intros H. apply elem_of_list_to_map_2 in H.
  repeat (apply elem_of_cons in H as [H|H];
          [injection H as -> ->; reflexivity|]).
  now apply elem_of_nil in H.
Qed.

Lemma X14_mapping_keeps_measurement_class_witness :
  isVolumeUnit "quart" = isVolumeUnit "l".
Proof. apply (X14_mapping_keeps_measurement_class "l" "quart"). reflexivity. Defined.

(** *** Formatting *)



Lemma near_far (f c : Q) :
  0.01 <= f - c \/ 0.01 <= c - f -> near f c = false.
Proof.
  intros H. unfold near.
  assert (E : Qle_bool 0.01 (Qabs (f - c)) = true); [|now rewrite E].
  apply Qle_bool_iff.
  destruct H as [H|H].
  - rewrite Qabs_pos; lra.
  - rewrite Qabs_neg; lra.
Qed.

Lemma Qeq_bool_false (x y : Q) : ~ x == y -> Qeq_bool x y = false.
Proof.
  intros H. destruct (Qeq_bool x y) eqn:E; [|reflexivity].
  apply Qeq_bool_iff in E. contradiction.
Qed.





Lemma append_assoc (s1 s2 s3 : string) :
  ((s1 ++ s2) ++ s3 = s1 ++ s2 ++ s3)%string.
Proof.
  induction s1 as [|c s1 IH]; [reflexivity|].
  change (String c ((s1 ++ s2) ++ s3) = String c (s1 ++ s2 ++ s3))%string.
  now rewrite IH.
Qed.

(** X17.  A fractional part above 0.995 is not carried into the whole
    part: it is written as 1.00 after it (2.999 g is written 2 1.00 g). *)
Theorem X17_fraction_near_one_not_carried (q : Q) (u : string) :
  (0 < Qfloor q)%Z ->
  0.995 < q - inject_Z (Qfloor q) ->
  formatMeasurement (Num q) u =
    (RecipeTimer.toString (Qfloor q) ++ " 1.00 " ++ u)%string.
Proof.
  intros Hw Hf.
  pose proof (Qlt_floor q) as Hhi.
  rewrite inject_Z_plus in Hhi. change (inject_Z 1) with 1 in Hhi.
  unfold formatMeasurement.
  rewrite Qeq_bool_false by lra.
  rewrite (proj2 (Z.ltb_lt 0%Z (Qfloor q)) Hw).
  assert (Hf1 : q - inject_Z (Qfloor q) < 1) by lra.
  set (f := q - inject_Z (Qfloor q)) in *.
  assert (Hs : fractionString f = "1.00"%string).
  { unfold fractionString.
    rewrite !near_far by (left; lra). cbn [orb].
    unfold toFixed2.
    assert (E : Qfloor (f * 100 + (1 # 2)) = 100%Z).
    { apply Qfloor_unique.
      - change (inject_Z 100) with 100. lra.
      - change (inject_Z (100 + 1)) with 101. lra. }
    rewrite E. reflexivity. }
  rewrite Hs. now rewrite !append_assoc.
Qed.

Lemma X17_fraction_near_one_not_carried_witness :
  formatMeasurement (Num 2.999) "g" = "2 1.00 g"%string.
Proof.
  rewrite (X17_fraction_near_one_not_carried 2.999 "g").
  - reflexivity.
  - reflexivity.
  - reflexivity.
Defined.

End ConverterExtras.
